(** * clDNN pooling primitive, topology finalization and the ngraph Function alias

    Shallow embedding of
    - [inference-engine/thirdparty/clDNN/api/cldnn/primitives/pooling.hpp]
      (namespace [cldnn], embedded in [Module cldnn]);
    - [ngraph/core/include/ngraph/function.hpp]
      (namespaces [ov] and [ngraph], embedded in [Module ov] and [Module ngraph]).

    C++ namespaces become modules, structs become records, the overloaded
    constructors of [pooling] become the constructors of one inductive type of
    constructor calls, and the virtual [get_dependencies] becomes a method of
    the [Primitive] class. *)

From stdpp Require Import base strings list relations gmap.

Local Open Scope string_scope.
Local Open Scope list_scope.

(** [primitive_id] is [std::string]. *)
Abbreviation primitive_id := string.

Module std.

(** [std::string::empty()]: the string has no characters. *)
Definition empty (s : string) : bool := Nat.eqb (String.length s) 0.

End std.

(** ** Results of fallible operations *)

(** Modelled from the spec: the error taxonomy of section 7; the source files
    at hand declare no error type. *)
Inductive error : Set :=
  | DuplicateId
  | UnknownReference
  | CycleDetected
  | InvalidConfiguration
  | VariableMismatch
  | DanglingReference.

(** The outcome of a fallible operation: a value or the error raised. *)
Inductive result (A : Type) : Type :=
  | Ok (a : A)
  | Err (e : error).
Arguments Ok {A} a.
Arguments Err {A} e.

(** ** The primitive capability *)

(** Modelled from the spec: the capability contract of section 4.1
    ([primitive.hpp] is absent): identity, ordered primary inputs, and the
    extra dependencies, which is the virtual [get_dependencies] that
    [pooling] overrides (empty by default).  [prim_valid] is the legality rule
    of the variant, checked at finalization (section 4.2). *)
Class Primitive (A : Type) := {
  prim_id : A -> primitive_id;
  prim_inputs : A -> list primitive_id;
  prim_extra_dependencies : A -> list primitive_id;
  prim_valid : A -> bool
}.

#[global] Instance sum_Primitive {A B : Type} `{Primitive A} `{Primitive B} :
  Primitive (A + B) := {
  prim_id := fun n => match n with inl a => prim_id a | inr b => prim_id b end;
  prim_inputs := fun n => match n with inl a => prim_inputs a | inr b => prim_inputs b end;
  prim_extra_dependencies := fun n =>
    match n with
    | inl a => prim_extra_dependencies a
    | inr b => prim_extra_dependencies b
    end;
  prim_valid := fun n => match n with inl a => prim_valid a | inr b => prim_valid b end
}.

Module cldnn.

(** [enum class pooling_mode : int32_t]. *)
Inductive pooling_mode : Set :=
  | max
  | average
  | average_no_padding
  | max_with_argmax
  | bilinear
  | deformable_bilinear.

#[global] Instance pooling_mode_eq_dec : EqDecision pooling_mode.
Proof. solve_decision. Defined.

Section Primitives.

(** The value types of [tensor.hpp] and [primitive.hpp] are not part of the
    files at hand; they are kept abstract, together with the two ways
    [pooling.hpp] builds them. *)
Variable tensor : Type.
(** [tensor(b, f, x, y)], also written [{b, f, x, y}]. *)
Variable tensor_bfyx : Z -> Z -> Z -> Z -> tensor.
(** [tensor()], the value of a member no initializer mentions. *)
Variable tensor_default : tensor.
Variable padding : Type.
(** [padding()]. *)
Variable padding_default : padding.
Variable data_types : Type.

(** Modelled from the spec: [primitive.hpp] (the base [primitive_base<T>]) is
    absent.  Section 3 gives the base record as identity, ordered primary
    inputs, padding and an optional output element type; [ext_prim_id] is the
    third argument every [pooling] constructor forwards.  Construction is
    plain field assignment (section 7). *)
Record primitive : Type := {
  id : primitive_id;
  input : list primitive_id;
  ext_prim_id : primitive_id;
  output_padding : padding;
  output_data_type : option data_types
}.

(** [primitive_base(id, input, ext_prim_id, output_padding, output_data_type)];
    the last argument defaults to the empty [optional_data_type]. *)
Definition primitive_base (id : primitive_id) (input : list primitive_id)
    (ext_prim_id : primitive_id) (output_padding : padding)
    (output_data_type : option data_types) : primitive :=
  {| id := id; input := input; ext_prim_id := ext_prim_id;
     output_padding := output_padding; output_data_type := output_data_type |}.

(** [struct pooling : public primitive_base<pooling>]: the base sub-object
    followed by the public data members in declaration order. *)
Record pooling : Type := {
  base : primitive;
  argmax : primitive_id;
  mode : pooling_mode;
  global_pooling : bool;
  input_offset : tensor;
  stride : tensor;
  size : tensor;
  with_output_size : bool;
  output_size : tensor;
  pad_end : tensor
}.

(** The five overloads of [pooling::pooling], in source order.  A defaulted
    C++ argument is an [option]: [None] stands for an omitted argument. *)
Inductive pooling_ctor : Type :=
  | ctor_window (id input : primitive_id) (mode : pooling_mode)
      (size stride : tensor) (input_offset : option tensor)
      (ext_prim_id : option primitive_id) (output_padding : option padding)
  | ctor_argmax (id input argmax : primitive_id) (mode : pooling_mode)
      (size stride : tensor) (input_offset : option tensor)
      (ext_prim_id : option primitive_id) (output_padding : option padding)
  | ctor_output_size (id input : primitive_id) (mode : pooling_mode)
      (size stride input_offset output_size : tensor)
      (output_data_type : data_types)
      (ext_prim_id : option primitive_id) (output_padding : option padding)
  | ctor_argmax_output_size (id input argmax : primitive_id) (mode : pooling_mode)
      (size stride input_offset output_size : tensor)
      (ext_prim_id : option primitive_id) (output_padding : option padding)
  | ctor_global (id input : primitive_id) (mode : pooling_mode)
      (ext_prim_id : option primitive_id) (output_padding : option padding).

(** The member-initializer lists.  [output_size] and [pad_end] keep
    [tensor()] wherever no initializer names them. *)
Definition construct (c : pooling_ctor) : pooling :=
  match c with
  | ctor_window id input mode size stride input_offset ext_prim_id output_padding =>
      {| base := primitive_base id [input] (default "" ext_prim_id)
                   (default padding_default output_padding) None;
         argmax := "";
         mode := mode;
         global_pooling := false;
         input_offset := default (tensor_bfyx 0 0 0 0) input_offset;
         stride := stride;
         size := size;
         with_output_size := false;
         output_size := tensor_default;
         pad_end := tensor_default |}
  | ctor_argmax id input argmax mode size stride input_offset ext_prim_id output_padding =>
      {| base := primitive_base id [input] (default "" ext_prim_id)
                   (default padding_default output_padding) None;
         argmax := argmax;
         mode := mode;
         global_pooling := false;
         input_offset := default (tensor_bfyx 0 0 0 0) input_offset;
         stride := stride;
         size := size;
         with_output_size := false;
         output_size := tensor_default;
         pad_end := tensor_default |}
  | ctor_output_size id input mode size stride input_offset output_size
      output_data_type ext_prim_id output_padding =>
      {| base := primitive_base id [input] (default "" ext_prim_id)
                   (default padding_default output_padding) (Some output_data_type);
         argmax := "";
         mode := mode;
         global_pooling := false;
         input_offset := input_offset;
         stride := stride;
         size := size;
         with_output_size := true;
         output_size := output_size;
         pad_end := tensor_default |}
  | ctor_argmax_output_size id input argmax mode size stride input_offset output_size
      ext_prim_id output_padding =>
      {| base := primitive_base id [input] (default "" ext_prim_id)
                   (default padding_default output_padding) None;
         argmax := argmax;
         mode := mode;
         global_pooling := false;
         input_offset := input_offset;
         stride := stride;
         size := size;
         with_output_size := true;
         output_size := output_size;
         pad_end := tensor_default |}
  | ctor_global id input mode ext_prim_id output_padding =>
      {| base := primitive_base id [input] (default "" ext_prim_id)
                   (default padding_default output_padding) None;
         argmax := "";
         mode := mode;
         global_pooling := true;
         input_offset := tensor_bfyx 0 0 0 0;
         stride := tensor_bfyx 1 1 1 1;
         size := tensor_bfyx 0 0 0 0;
         with_output_size := false;
         output_size := tensor_default;
         pad_end := tensor_default |}
  end.

(** [pooling::get_dependencies]. *)
Definition get_dependencies (p : pooling) : list primitive_id :=
  if std.empty (argmax p) then [] else [argmax p].

(** The spec's name for the same capability, as a set of ids. *)
Definition extra_dependencies (p : pooling) : gset primitive_id :=
  list_to_set (get_dependencies p).

(** What a constructor call was given, read off the call itself. *)
Definition ctor_id (c : pooling_ctor) : primitive_id :=
  match c with
  | ctor_window i _ _ _ _ _ _ _ | ctor_argmax i _ _ _ _ _ _ _ _
  | ctor_output_size i _ _ _ _ _ _ _ _ _
  | ctor_argmax_output_size i _ _ _ _ _ _ _ _ _ | ctor_global i _ _ _ _ => i
  end.

Definition ctor_input (c : pooling_ctor) : primitive_id :=
  match c with
  | ctor_window _ i _ _ _ _ _ _ | ctor_argmax _ i _ _ _ _ _ _ _
  | ctor_output_size _ i _ _ _ _ _ _ _ _
  | ctor_argmax_output_size _ i _ _ _ _ _ _ _ _ | ctor_global _ i _ _ _ => i
  end.

Definition ctor_mode (c : pooling_ctor) : pooling_mode :=
  match c with
  | ctor_window _ _ m _ _ _ _ _ | ctor_argmax _ _ _ m _ _ _ _ _
  | ctor_output_size _ _ m _ _ _ _ _ _ _
  | ctor_argmax_output_size _ _ _ m _ _ _ _ _ _ | ctor_global _ _ m _ _ => m
  end.

(** The [argmax] argument, for the two overloads that have one. *)
Definition ctor_argmax_arg (c : pooling_ctor) : option primitive_id :=
  match c with
  | ctor_argmax _ _ a _ _ _ _ _ _ | ctor_argmax_output_size _ _ a _ _ _ _ _ _ _ => Some a
  | _ => None
  end.

(** The [output_size] argument, for the two overloads that have one. *)
Definition ctor_output_size_arg (c : pooling_ctor) : option tensor :=
  match c with
  | ctor_output_size _ _ _ _ _ _ o _ _ _
  | ctor_argmax_output_size _ _ _ _ _ _ _ o _ _ => Some o
  | _ => None
  end.

Definition is_ctor_global (c : pooling_ctor) : bool :=
  match c with ctor_global _ _ _ _ _ => true | _ => false end.

(** Modelled from the spec: the legality rule of section 4.2 that
    finalization checks, [mode = max_with_argmax] requires a non-empty
    [argmax].  (The companion rule on [with_output_size] has no content on
    the source record, whose [output_size] is a plain [tensor].) *)
Definition pooling_valid (p : pooling) : bool :=
  negb (bool_decide (mode p = max_with_argmax) && std.empty (argmax p)).

#[global] Instance primitive_Primitive : Primitive primitive := {
  prim_id := id;
  prim_inputs := input;
  prim_extra_dependencies := fun _ => [];
  prim_valid := fun _ => true
}.

#[global] Instance pooling_Primitive : Primitive pooling := {
  prim_id := fun p => id (base p);
  prim_inputs := fun p => input (base p);
  prim_extra_dependencies := get_dependencies;
  prim_valid := pooling_valid
}.

End Primitives.

Arguments ctor_window {tensor padding data_types}.
Arguments ctor_argmax {tensor padding data_types}.
Arguments ctor_output_size {tensor padding data_types}.
Arguments ctor_argmax_output_size {tensor padding data_types}.
Arguments ctor_global {tensor padding data_types}.
Arguments primitive_base {padding data_types}.
Arguments id {padding data_types} p.
Arguments input {padding data_types} p.
Arguments ext_prim_id {padding data_types} p.
Arguments output_padding {padding data_types} p.
Arguments output_data_type {padding data_types} p.
Arguments base {tensor padding data_types} p.
Arguments argmax {tensor padding data_types} p.
Arguments mode {tensor padding data_types} p.
Arguments global_pooling {tensor padding data_types} p.
Arguments input_offset {tensor padding data_types} p.
Arguments stride {tensor padding data_types} p.
Arguments size {tensor padding data_types} p.
Arguments with_output_size {tensor padding data_types} p.
Arguments output_size {tensor padding data_types} p.
Arguments pad_end {tensor padding data_types} p.
Arguments construct {tensor} tensor_bfyx tensor_default {padding} padding_default
  data_types c.
Arguments get_dependencies {tensor padding data_types} p.
Arguments extra_dependencies {tensor padding data_types} p.
Arguments pooling_valid {tensor padding data_types} p.
Arguments ctor_id {tensor padding data_types} c.
Arguments ctor_input {tensor padding data_types} c.
Arguments ctor_mode {tensor padding data_types} c.
Arguments ctor_argmax_arg {tensor padding data_types} c.
Arguments ctor_output_size_arg {tensor padding data_types} c.
Arguments is_ctor_global {tensor padding data_types} c.

End cldnn.

(** ** Topology *)

Module topology.

Section Topology.

Context {A : Type} `{Primitive A}.

(** Modelled from the spec: the topology container is absent from the files
    at hand.  Section 3 makes it a mapping from id to primitive; the
    tie-break of section 4.3 needs the insertion order, so the primitives are
    kept as a list in insertion order, whose ids [insert] keeps distinct. *)
Definition ids (t : list A) : list primitive_id := prim_id <$> t.

(** Modelled from the spec: [insert(primitive)] of section 4.3, failing with
    [DuplicateId] when the id is already present. *)
Definition insert (p : A) (t : list A) : result (list A) :=
  if bool_decide (prim_id p ∈ ids t) then Err DuplicateId else Ok (t ++ [p]).

(** A builder inserting the primitives of [ps] one after the other into the
    empty topology; the first failing [insert] aborts the build. *)
Definition insert_all (ps : list A) : result (list A) :=
  foldl (fun acc p => match acc with Ok t => insert p t | Err e => Err e end)
        (Ok []) ps.

(** Modelled from the spec: the edge set of a primitive,
    [inputs() ∪ extra_dependencies()] (section 4.3). *)
Definition dependencies (p : A) : list primitive_id :=
  prim_inputs p ++ prim_extra_dependencies p.

(** Every id a primitive of [t] refers to is the id of a primitive of [t]. *)
Definition resolved (t : list A) : bool :=
  forallb (fun p => forallb (fun d => bool_decide (d ∈ ids t)) (dependencies p)) t.

(** All dependencies of [p] have already been emitted. *)
Definition ready (emitted : list primitive_id) (p : A) : bool :=
  forallb (fun d => bool_decide (d ∈ emitted)) (dependencies p).

(** The first pending primitive, in insertion order, that is ready, and the
    pending list without it. *)
Fixpoint pick (emitted : list primitive_id) (pending : list A) : option (A * list A) :=
  match pending with
  | [] => None
  | p :: ps =>
      if ready emitted p then Some (p, ps)
      else match pick emitted ps with
           | Some (q, rest) => Some (q, p :: rest)
           | None => None
           end
  end.

(** Modelled from the spec: Kahn's algorithm with the tie-break of section
    4.3 (among the ready primitives the earliest inserted goes first).
    [None] reports that no pending primitive is ready.  [fuel] bounds the
    number of rounds; [finalize] passes the number of primitives. *)
Fixpoint kahn (fuel : nat) (emitted : list primitive_id) (pending : list A)
    : option (list A) :=
  match pending with
  | [] => Some []
  | _ :: _ =>
      match fuel with
      | O => None
      | S fuel' =>
          match pick emitted pending with
          | None => None
          | Some (p, rest) =>
              match kahn fuel' (prim_id p :: emitted) rest with
              | Some ps => Some (p :: ps)
              | None => None
              end
          end
      end
  end.

(** Modelled from the spec: the immutable result of finalization, the
    primitives together with a topological order of their ids. *)
Record Graph : Type := {
  primitives : list A;
  order : list primitive_id
}.

(** Modelled from the spec: [finalize()] of section 4.3 together with the
    validation sections 4.2 and 7 place at finalization.  A primitive with
    an illegal configuration is reported first (section 8 promises
    [InvalidConfiguration] for it whatever its references are), then a
    reference to an absent id, then a cycle. *)
Definition finalize (t : list A) : result Graph :=
  if negb (forallb prim_valid t) then Err InvalidConfiguration
  else if negb (resolved t) then Err UnknownReference
  else match kahn (length t) [] t with
       | Some ps => Ok {| primitives := t; order := ids ps |}
       | None => Err CycleDetected
       end.

(** *** The dependency graph of a topology *)

(** [edge t u v]: some primitive of [t] with id [v] depends on [u]. *)
Definition edge (t : list A) (u v : primitive_id) : Prop :=
  exists p, p ∈ t /\ prim_id p = v /\ u ∈ dependencies p.

Definition no_dangling (t : list A) : Prop :=
  forall p d, p ∈ t -> d ∈ dependencies p -> d ∈ ids t.

Definition acyclic (t : list A) : Prop :=
  forall v, ~ tc (edge t) v v.

Definition valid_configuration (t : list A) : Prop :=
  Forall (fun p => prim_valid p = true) t.

(** [u] comes strictly before [v] in the order of [g]. *)
Definition order_lt (g : Graph) (u v : primitive_id) : Prop :=
  exists i j : nat, order g !! i = Some u /\ order g !! j = Some v /\ (i < j)%nat.

End Topology.

Arguments Graph A : clear implicits.

End topology.

(** ** Function *)

Module ov.

Section Function.

(** The finalized topology a function packages; its type is not fixed by
    the files at hand. *)
Variable Topology : Type.

(** Modelled from the spec: [openvino/core/function.hpp] is absent.  Section
    3 gives [ov::Function] as a finalized topology with its parameters,
    results, sinks and the read/assign pair of every variable. *)
Record Function : Type := {
  topology : Topology;
  parameters : list primitive_id;
  results : list primitive_id;
  sinks : gset primitive_id;
  variables : gmap string (primitive_id * primitive_id)
}.

End Function.

End ov.

Module ngraph.

(** [using ov::Function;] *)
Definition Function : Type -> Type := ov.Function.

End ngraph.

(** ** Sample values *)

Module sample.

(** Modelled from the spec: section 3 describes tensors and paddings as 4-D
    integer vectors with value semantics; [tensor.hpp] is absent.  These
    values only instantiate the abstract types on concrete inputs. *)
Record vec4 : Set := bfyx { batch : Z; feature : Z; spatial_x : Z; spatial_y : Z }.

Definition tensor_default : vec4 := bfyx 0 0 0 0.
Definition padding_default : vec4 := bfyx 0 0 0 0.

(** Two element types of the absent [data_types] enum. *)
Inductive data_types : Set := f16 | f32.

Abbreviation primitive := (cldnn.primitive vec4 data_types).
Abbreviation pooling := (cldnn.pooling vec4 vec4 data_types).
Abbreviation pooling_ctor := (cldnn.pooling_ctor vec4 vec4 data_types).
Abbreviation construct :=
  (cldnn.construct bfyx tensor_default padding_default data_types).

(** A source node: a bare primitive without inputs. *)
Definition source (id : primitive_id) : primitive :=
  cldnn.primitive_base id [] "" padding_default None.

(** [pooling("pool", "in", "idx", max_with_argmax, {1,1,2,2}, {1,1,2,2})]. *)
Definition call_argmax : pooling_ctor :=
  cldnn.ctor_argmax "pool" "in" "idx" cldnn.max_with_argmax
    (bfyx 1 1 2 2) (bfyx 1 1 2 2) None None None.

(** [pooling("pool", "in", pooling_mode::max_with_argmax, {1,1,2,2}, {1,1,2,2})]:
    the argmax mode through the overload without an argmax argument. *)
Definition call_no_argmax : pooling_ctor :=
  cldnn.ctor_window "pool" "in" cldnn.max_with_argmax
    (bfyx 1 1 2 2) (bfyx 1 1 2 2) None None None.

(** [pooling("pool", "in", pooling_mode::max, {1,1,2,2}, {1,1,2,2}, {0,0,0,0},
    {1,1,4,4}, data_types::f32)]. *)
Definition call_output_size : pooling_ctor :=
  cldnn.ctor_output_size "pool" "in" cldnn.max
    (bfyx 1 1 2 2) (bfyx 1 1 2 2) (bfyx 0 0 0 0) (bfyx 1 1 4 4) f32 None None.

(** [pooling("pool", "in", "idx", pooling_mode::max_with_argmax, {1,1,2,2},
    {1,1,2,2}, {0,0,0,0}, {1,1,4,4})]. *)
Definition call_argmax_output_size : pooling_ctor :=
  cldnn.ctor_argmax_output_size "pool" "in" "idx" cldnn.max_with_argmax
    (bfyx 1 1 2 2) (bfyx 1 1 2 2) (bfyx 0 0 0 0) (bfyx 1 1 4 4) None None.

(** [pooling("", "in", pooling_mode::average)]. *)
Definition call_empty_id : pooling_ctor :=
  cldnn.ctor_global "" "in" cldnn.average None None.

(** A primitive of the base kind with the given primary inputs. *)
Definition node (id : primitive_id) (input : list primitive_id) : primitive :=
  cldnn.primitive_base id input "" padding_default None.

(** A pooling inserted before the two nodes it refers to. *)
Definition topology_forward : list (primitive + pooling) :=
  [inr (construct call_argmax); inl (source "in"); inl (source "idx")].

(** A source and an argmax-mode pooling that names no argmax buffer. *)
Definition topology_no_argmax : list (primitive + pooling) :=
  [inl (source "in"); inr (construct call_no_argmax)].

(** Three primitives whose inputs form the cycle [A -> B -> C -> A]. *)
Definition topology_cycle : list (primitive + pooling) :=
  [inl (node "A" ["C"]); inl (node "B" ["A"]); inl (node "C" ["B"])].

(** A pooling whose input was never inserted. *)
Definition topology_dangling : list (primitive + pooling) :=
  [inl (source "idx"); inr (construct call_argmax)].

End sample.

(** * Properties of the pooling primitive *)

Lemma empty_true (s : string) : std.empty s = true <-> s = "".
Proof. unfold std.empty. destruct s; simpl; split; congruence. Qed.

Lemma empty_false (s : string) : std.empty s = false <-> s <> "".
Proof. unfold std.empty. destruct s; simpl; split; congruence. Qed.

Section PoolingFacts.

Variable tensor : Type.
Variable tensor_bfyx : Z -> Z -> Z -> Z -> tensor.
Variable tensor_default : tensor.
Variable padding : Type.
Variable padding_default : padding.
Variable data_types : Type.

Local Abbreviation pooling := (cldnn.pooling tensor padding data_types).
Local Abbreviation pooling_ctor := (cldnn.pooling_ctor tensor padding data_types).
Local Abbreviation construct :=
  (cldnn.construct tensor_bfyx tensor_default padding_default data_types).

Implicit Types (p : pooling) (c : pooling_ctor).

Lemma get_dependencies_empty p :
  cldnn.argmax p = "" -> cldnn.get_dependencies p = [].
Proof. intros Heq. unfold cldnn.get_dependencies. by rewrite Heq. Qed.

Lemma get_dependencies_argmax p :
  cldnn.argmax p <> "" -> cldnn.get_dependencies p = [cldnn.argmax p].
Proof.
  intros Hne%empty_false. unfold cldnn.get_dependencies. by rewrite Hne.
Qed.

(** C1: for every pooling record, whatever constructor or field assignment
    produced it, [extra_dependencies()] is the empty set exactly when
    [argmax] is the empty string, and is the singleton [{argmax}] otherwise;
    the vector [get_dependencies] returns is [[]], respectively
    [[argmax]]. *)
Theorem extra_dependencies_argmax p :
  (cldnn.extra_dependencies p = ∅ <-> cldnn.argmax p = "") /\
  (cldnn.argmax p <> "" ->
     cldnn.extra_dependencies p = {[ cldnn.argmax p ]} /\
     cldnn.get_dependencies p = [cldnn.argmax p]) /\
  (cldnn.argmax p = "" -> cldnn.get_dependencies p = []).
Proof.
  unfold cldnn.extra_dependencies. split_and!.
  - split.
    + intros Hset. destruct (decide (cldnn.argmax p = "")) as [|Hne]; [done|].
      rewrite (get_dependencies_argmax p Hne) in Hset. set_solver.
    + intros Heq. by rewrite (get_dependencies_empty p Heq).
  - intros Hne. rewrite (get_dependencies_argmax p Hne).
    split; [apply list_to_set_singleton_L | done].
  - apply get_dependencies_empty.
Qed.

(** C3: [global_pooling] is [true] after the mode-only overload and [false]
    after each of the other four; the mode-only overload stores
    [input_offset = (0,0,0,0)], [stride = (1,1,1,1)] and [size = (0,0,0,0)]
    whatever its arguments are. *)
Theorem global_pooling_only_mode_only :
  (forall c, cldnn.global_pooling (construct c) = cldnn.is_ctor_global c) /\
  (forall id input mode ext_prim_id output_padding,
     let p := construct (cldnn.ctor_global id input mode ext_prim_id output_padding) in
     cldnn.global_pooling p = true /\
     cldnn.input_offset p = tensor_bfyx 0 0 0 0 /\
     cldnn.stride p = tensor_bfyx 1 1 1 1 /\
     cldnn.size p = tensor_bfyx 0 0 0 0) /\
  (forall id input mode size stride input_offset ext_prim_id output_padding,
     cldnn.global_pooling
       (construct (cldnn.ctor_window id input mode size stride input_offset
                     ext_prim_id output_padding)) = false) /\
  (forall id input argmax mode size stride input_offset ext_prim_id output_padding,
     cldnn.global_pooling
       (construct (cldnn.ctor_argmax id input argmax mode size stride input_offset
                     ext_prim_id output_padding)) = false) /\
  (forall id input mode size stride input_offset output_size output_data_type
          ext_prim_id output_padding,
     cldnn.global_pooling
       (construct (cldnn.ctor_output_size id input mode size stride input_offset
                     output_size output_data_type ext_prim_id output_padding)) = false) /\
  (forall id input argmax mode size stride input_offset output_size
          ext_prim_id output_padding,
     cldnn.global_pooling
       (construct (cldnn.ctor_argmax_output_size id input argmax mode size stride
                     input_offset output_size ext_prim_id output_padding)) = false).
Proof. split_and!; try done. by intros []. Qed.

(** C4: [with_output_size] is [true] exactly after the two overloads that
    take an [output_size] argument, which store that argument in
    [output_size]; each of the other three overloads sets it to [false]. *)
Theorem with_output_size_iff_supplied :
  (forall c, cldnn.with_output_size (construct c)
             = bool_decide (is_Some (cldnn.ctor_output_size_arg c))) /\
  (forall id input mode size stride input_offset output_size output_data_type
          ext_prim_id output_padding,
     let p := construct (cldnn.ctor_output_size id input mode size stride input_offset
                           output_size output_data_type ext_prim_id output_padding) in
     cldnn.with_output_size p = true /\ cldnn.output_size p = output_size) /\
  (forall id input argmax mode size stride input_offset output_size
          ext_prim_id output_padding,
     let p := construct (cldnn.ctor_argmax_output_size id input argmax mode size stride
                           input_offset output_size ext_prim_id output_padding) in
     cldnn.with_output_size p = true /\ cldnn.output_size p = output_size) /\
  (forall id input mode size stride input_offset ext_prim_id output_padding,
     cldnn.with_output_size
       (construct (cldnn.ctor_window id input mode size stride input_offset
                     ext_prim_id output_padding)) = false) /\
  (forall id input argmax mode size stride input_offset ext_prim_id output_padding,
     cldnn.with_output_size
       (construct (cldnn.ctor_argmax id input argmax mode size stride input_offset
                     ext_prim_id output_padding)) = false) /\
  (forall id input mode ext_prim_id output_padding,
     cldnn.with_output_size
       (construct (cldnn.ctor_global id input mode ext_prim_id output_padding)) = false).
Proof. split_and!; try done. by intros []. Qed.

(** C5, as amended: the overload taking both an argmax id and an output
    size stores the argmax id, sets [with_output_size], stores the requested
    [output_size] and agrees with the output-size overload on every other
    pooling field and on the base fields [id], [input], [ext_prim_id] and
    [output_padding]; it has no element-type parameter and leaves
    [output_data_type] empty, where the output-size overload stores its
    [output_data_type] argument. *)
Theorem argmax_output_size_combines
    id input argmax mode size stride input_offset output_size output_data_type
    ext_prim_id output_padding :
  let p := construct (cldnn.ctor_argmax_output_size id input argmax mode size stride
                        input_offset output_size ext_prim_id output_padding) in
  let q := construct (cldnn.ctor_output_size id input mode size stride input_offset
                        output_size output_data_type ext_prim_id output_padding) in
  cldnn.argmax p = argmax /\
  cldnn.with_output_size p = true /\
  cldnn.output_size p = output_size /\
  cldnn.output_data_type (cldnn.base p) = None /\
  cldnn.output_data_type (cldnn.base q) = Some output_data_type /\
  cldnn.with_output_size q = cldnn.with_output_size p /\
  cldnn.output_size q = cldnn.output_size p /\
  cldnn.mode q = cldnn.mode p /\
  cldnn.global_pooling q = cldnn.global_pooling p /\
  cldnn.input_offset q = cldnn.input_offset p /\
  cldnn.stride q = cldnn.stride p /\
  cldnn.size q = cldnn.size p /\
  cldnn.pad_end q = cldnn.pad_end p /\
  cldnn.id (cldnn.base q) = cldnn.id (cldnn.base p) /\
  cldnn.input (cldnn.base q) = cldnn.input (cldnn.base p) /\
  cldnn.ext_prim_id (cldnn.base q) = cldnn.ext_prim_id (cldnn.base p) /\
  cldnn.output_padding (cldnn.base q) = cldnn.output_padding (cldnn.base p).
Proof. by split_and!. Qed.

(** C6, as amended: [id()] returns the id argument of the constructor call
    unchanged, so it is empty exactly when the id passed to the constructor
    is the empty string. *)
Theorem id_is_constructor_argument c :
  cldnn.id (cldnn.base (construct c)) = cldnn.ctor_id c /\
  prim_id (construct c) = cldnn.ctor_id c /\
  std.empty (prim_id (construct c)) = std.empty (cldnn.ctor_id c).
Proof. by destruct c. Qed.

(** C8: every overload stores exactly the one-element sequence [[input]] as
    the primary input list. *)
Theorem input_is_singleton c :
  cldnn.input (cldnn.base (construct c)) = [cldnn.ctor_input c] /\
  prim_inputs (construct c) = [cldnn.ctor_input c] /\
  length (prim_inputs (construct c)) = 1.
Proof. by destruct c. Qed.

(** C9: no overload initializes [pad_end]: after each of the five it holds
    the default tensor, and two calls never differ in it. *)
Theorem pad_end_untouched :
  (forall c, cldnn.pad_end (construct c) = tensor_default) /\
  (forall c c', cldnn.pad_end (construct c) = cldnn.pad_end (construct c')).
Proof. split; [by intros [] | by intros [] []]. Qed.

End PoolingFacts.

(** * Properties of the topology *)

Import topology.

Section TopologyFacts.
Context {A : Type} `{Primitive A}.
Implicit Types (t pending ps : list A) (emitted : list string) (p q : A).

Lemma resolved_no_dangling t : resolved t = true <-> no_dangling t.
Proof.
  unfold resolved, no_dangling.
  rewrite <- Is_true_true, forallb_True, Forall_forall.
  split.
  - intros Hall p d Hp Hd. specialize (Hall p Hp).
    rewrite forallb_True, Forall_forall in Hall.
    specialize (Hall d Hd). by apply bool_decide_unpack in Hall.
  - intros Hall p Hp. rewrite forallb_True, Forall_forall. intros d Hd.
    apply bool_decide_pack. eauto.
Qed.

Lemma ready_true emitted p :
  ready emitted p = true <-> forall d, d ∈ dependencies p -> d ∈ emitted.
Proof.
  unfold ready. rewrite <- Is_true_true, forallb_True, Forall_forall.
  split; intros Hall d Hd.
  - specialize (Hall d Hd). by apply bool_decide_unpack in Hall.
  - apply bool_decide_pack. by apply Hall.
Qed.

Lemma ready_false emitted p :
  ready emitted p = false -> exists d, d ∈ dependencies p /\ d ∉ emitted.
Proof.
  unfold ready. induction (dependencies p) as [|d ds IH]; simpl; [done|].
  destruct (bool_decide_reflect (d ∈ emitted)) as [Hd|Hd]; simpl.
  - intros [d' [? ?]]%IH. exists d'. split; [by right | done].
  - intros _. exists d. split; [by left | done].
Qed.

Lemma pick_Some emitted pending p rest :
  pick emitted pending = Some (p, rest) ->
  ready emitted p = true /\ pending ≡ₚ p :: rest.
Proof.
  revert rest. induction pending as [|q qs IH]; intros rest; simpl; [done|].
  destruct (ready emitted q) eqn:Hq.
  - intros [= -> ->]. done.
  - destruct (pick emitted qs) as [[q' rest']|]; [|done].
    intros [= -> <-]. destruct (IH rest' eq_refl) as [? Hperm].
    split; [done|]. rewrite Hperm. apply Permutation_swap.
Qed.

Lemma pick_None emitted pending :
  pick emitted pending = None -> forall p, p ∈ pending -> ready emitted p = false.
Proof.
  induction pending as [|q qs IH]; simpl; intros Hpick p Hp.
  - by apply elem_of_nil in Hp.
  - destruct (ready emitted q) eqn:Hq; [done|].
    destruct (pick emitted qs) as [[q' rest']|]; [done|].
    apply elem_of_cons in Hp as [->|Hp]; [done | by apply IH].
Qed.

(** What a successful run of [kahn] returns: the pending primitives, each one
    placed after all of its dependencies. *)
Lemma kahn_sound fuel emitted pending ps :
  kahn fuel emitted pending = Some ps ->
  ps ≡ₚ pending /\
  forall (i : nat) p d, ps !! i = Some p -> d ∈ dependencies p ->
    d ∈ emitted \/ d ∈ ids (take i ps).
Proof.
  revert emitted pending ps.
  induction fuel as [|fuel IH]; intros emitted pending ps; destruct pending as [|q qs]; cbn [kahn].
  - intros [= <-]. split; [done|]. intros i p d Hi. by rewrite lookup_nil in Hi.
  - done.
  - intros [= <-]. split; [done|]. intros i p d Hi. by rewrite lookup_nil in Hi.
  - destruct (pick emitted (q :: qs)) as [[p rest]|] eqn:Hpick; [|done].
    destruct (kahn fuel (prim_id p :: emitted) rest) as [ps'|] eqn:Hk; [|done].
    intros [= <-].
    apply pick_Some in Hpick as [Hready Hperm].
    apply IH in Hk as [Hperm' Hord].
    split; [by rewrite Hperm, Hperm'|].
    intros [|i] p' d Hi Hd; simpl in *.
    + injection Hi as <-. left. by apply (proj1 (ready_true _ _) Hready).
    + destruct (Hord i p' d Hi Hd) as [Hin|Hin].
      * apply elem_of_cons in Hin as [->|Hin]; [right; by left | by left].
      * right. by right.
Qed.

(** In a finite non-empty set where every element has a predecessor inside
    the set, some element precedes itself. *)
Lemma predecessors_cycle {K : Type} (R : relation K) (l : list K) :
  l <> [] ->
  (forall x, x ∈ l -> exists y, y ∈ l /\ tc R y x) ->
  exists x, tc R x x.
Proof.
  induction l as [|x l IH]; [done|]. intros _ Hpred.
  destruct (Hpred x) as (y & Hy & Hyx); [by left|].
  apply elem_of_cons in Hy as [->|Hy]; [by exists x|].
  apply IH.
  - intros ->. by apply elem_of_nil in Hy.
  - intros z Hz. destruct (Hpred z) as (w & Hw & Hwz); [by right|].
    apply elem_of_cons in Hw as [->|Hw]; [|by exists w].
    exists y. split; [done|]. by etrans.
Qed.

Lemma kahn_complete t fuel emitted pending :
  no_dangling t -> acyclic t ->
  length pending <= fuel ->
  (forall p, p ∈ pending -> p ∈ t) ->
  (forall x, x ∈ ids t -> x ∈ emitted \/ x ∈ ids pending) ->
  is_Some (kahn fuel emitted pending).
Proof.
  intros Hres Hacyc. revert emitted pending.
  induction fuel as [|fuel IH]; intros emitted pending Hlen Hsub Hcover;
    destruct pending as [|q qs]; cbn [kahn length] in *; [by eexists | lia | by eexists |].
  destruct (pick emitted (q :: qs)) as [[p rest]|] eqn:Hpick.
  - apply pick_Some in Hpick as [Hready Hperm].
    destruct (IH (prim_id p :: emitted) rest) as [ps' ->]; [| | |by eexists].
    + apply Permutation_length in Hperm. simpl in Hperm. lia.
    + intros p' Hp'. apply Hsub. rewrite Hperm. by right.
    + intros x Hx. destruct (Hcover x Hx) as [?|Hin]; [left; by right|].
      change (x ∈ ids (q :: qs)) in Hin. unfold ids in Hin |- *.
      rewrite Hperm in Hin. simpl in Hin.
      apply elem_of_cons in Hin as [->|Hin]; [left; by left | by right].
  - exfalso.
    destruct (predecessors_cycle (edge t) (ids (q :: qs))) as [v Hv]; [done| |].
    + intros x (p & -> & Hp)%list_elem_of_fmap.
      destruct (ready_false emitted p) as (d & Hd & Hnot);
        [by apply (pick_None _ _ Hpick)|].
      exists d. split.
      * destruct (Hcover d); [by eapply Hres; eauto | done | done].
      * apply tc_once. exists p. eauto.
    + by apply (Hacyc v).
Qed.

(** An order that places every dependency first rules out cycles. *)
Lemma ordered_tc t (o : list string) :
  NoDup o ->
  (forall u v, edge t u v -> exists i j : nat, o !! i = Some u /\ o !! j = Some v /\ i < j) ->
  forall u v, tc (edge t) u v -> exists i j : nat, o !! i = Some u /\ o !! j = Some v /\ i < j.
Proof.
  intros Hnd Hedge u v Htc. induction Htc as [u v Huv|u w v Huw _ IH]; [by apply Hedge|].
  destruct (Hedge _ _ Huw) as (i & j & Hi & Hj & Hij).
  destruct IH as (j' & k & Hj' & Hk & Hjk).
  assert (j = j') as <- by (by eapply NoDup_lookup).
  exists i, k. repeat split; [done..|lia].
Qed.

Lemma ordered_acyclic t (o : list string) :
  NoDup o ->
  (forall u v, edge t u v -> exists i j : nat, o !! i = Some u /\ o !! j = Some v /\ i < j) ->
  acyclic t.
Proof.
  intros Hnd Hedge v Hv.
  destruct (ordered_tc t o Hnd Hedge v v Hv) as (i & j & Hi & Hj & Hij).
  assert (i = j) by (by eapply NoDup_lookup). lia.
Qed.

Lemma kahn_order t ps :
  kahn (length t) [] t = Some ps ->
  ids ps ≡ₚ ids t /\
  forall u v, edge t u v ->
    exists i j : nat, ids ps !! i = Some u /\ ids ps !! j = Some v /\ i < j.
Proof.
  intros [Hperm Hord]%kahn_sound. split; [unfold ids; by rewrite Hperm|].
  intros u v (p & Hp & <- & Hu).
  rewrite <- Hperm in Hp. apply list_elem_of_lookup in Hp as [j Hj].
  destruct (Hord j p u Hj Hu) as [Hin|Hin]; [by apply elem_of_nil in Hin|].
  unfold ids in Hin. rewrite fmap_take in Hin.
  apply elem_of_take in Hin as (i & Hi & Hij).
  exists i, j. unfold ids. split_and!; [done| |done].
  by rewrite list_lookup_fmap, Hj.
Qed.


Lemma kahn_acyclic t ps :
  NoDup (ids t) -> kahn (length t) [] t = Some ps -> acyclic t.
Proof.
  intros Hnd [Hperm Hord]%kahn_order.
  apply (ordered_acyclic t (ids ps)); [by rewrite Hperm | done].
Qed.

Lemma insert_Ok p t t' :
  insert p t = Ok t' -> t' = t ++ [p] /\ prim_id p ∉ ids t.
Proof.
  unfold insert. destruct (bool_decide_reflect (prim_id p ∈ ids t)); [done|].
  by intros [= <-].
Qed.

Lemma insert_fresh p t :
  prim_id p ∉ ids t -> insert p t = Ok (t ++ [p]).
Proof. intros Hfresh. unfold insert. by rewrite bool_decide_eq_false_2. Qed.

Lemma insert_NoDup p t t' :
  NoDup (ids t) -> insert p t = Ok t' -> NoDup (ids t').
Proof.
  intros Hnd [-> Hfresh]%insert_Ok. unfold ids in *. rewrite fmap_app.
  apply NoDup_app. split_and!; [done| |apply NoDup_singleton].
  intros x Hx ->%list_elem_of_singleton. done.
Qed.

Lemma insert_all_from (acc : result (list A)) ps t :
  foldl (fun acc p => match acc with Ok t => insert p t | Err e => Err e end) acc ps
    = Ok t ->
  exists t0, acc = Ok t0 /\ t = t0 ++ ps /\ (NoDup (ids t0) -> NoDup (ids t)).
Proof.
  revert acc. induction ps as [|p ps IH]; intros acc; simpl.
  - intros ->. exists t. by rewrite app_nil_r.
  - intros (t1 & Hstep & -> & Hnd)%IH.
    destruct acc as [t0|e]; [|done]. exists t0.
    apply insert_Ok in Hstep as Hstep'. destruct Hstep' as [-> Hfresh].
    split_and!; [done | by rewrite <- app_assoc |].
    intros Hnd0. apply Hnd. by eapply insert_NoDup.
Qed.

Lemma insert_all_Ok ps t :
  insert_all ps = Ok t -> t = ps /\ NoDup (ids t).
Proof.
  intros (t0 & [= <-] & -> & Hnd)%insert_all_from.
  split; [done|]. apply Hnd. constructor.
Qed.

Lemma valid_configuration_forallb t :
  valid_configuration t <-> forallb prim_valid t = true.
Proof.
  unfold valid_configuration.
  rewrite <- Is_true_true, forallb_True. apply Forall_proper; [|done].
  intros p. by rewrite Is_true_true.
Qed.

(** C7, as amended: for primitives inserted one by one (so with distinct
    ids) whose configurations are all legal, [finalize()] succeeds when every
    referenced id is present and the dependency graph is acyclic, and the
    order it returns lists every id once and places [u] before [v] for every
    edge [u -> v]; it fails with [UnknownReference] when some referenced id
    is absent, and with [CycleDetected] when all are present and the graph
    has a cycle. *)
Theorem finalize_topological_order (ps t : list A) :
  insert_all ps = Ok t ->
  valid_configuration t ->
  (no_dangling t -> acyclic t ->
     exists g, finalize t = Ok g /\ primitives g = t /\ order g ≡ₚ ids t /\
               forall u v, edge t u v -> order_lt g u v) /\
  (~ no_dangling t -> finalize t = Err UnknownReference) /\
  (no_dangling t -> ~ acyclic t -> finalize t = Err CycleDetected).
Proof.
  intros [_ Hnd]%insert_all_Ok Hvalid%valid_configuration_forallb.
  unfold finalize. rewrite Hvalid. simpl. split_and!.
  - intros Hres Hacyc. rewrite (proj2 (resolved_no_dangling t) Hres). simpl.
    destruct (kahn_complete t (length t) [] t Hres Hacyc) as [qs Hqs];
      [done | done | by right |].
    rewrite Hqs. apply kahn_order in Hqs as [Hperm Hord].
    eexists. split_and!; [done | done | done |].
    intros u v Huv. by apply Hord.
  - intros Hdang. destruct (resolved t) eqn:Hres; [|done].
    by apply resolved_no_dangling in Hres.
  - intros Hres Hcyc. rewrite (proj2 (resolved_no_dangling t) Hres). simpl.
    destruct (kahn (length t) [] t) as [qs|] eqn:Hqs; [|done].
    destruct Hcyc. by eapply kahn_acyclic.
Qed.

(** A primitive with an illegal configuration makes finalization fail with
    [InvalidConfiguration], whatever else the topology holds. *)
Lemma finalize_invalid t p :
  p ∈ t -> prim_valid p = false -> finalize t = Err InvalidConfiguration.
Proof.
  intros Hp Hbad. unfold finalize.
  destruct (forallb prim_valid t) eqn:Hall; [|done].
  apply valid_configuration_forallb in Hall.
  unfold valid_configuration in Hall. rewrite Forall_forall in Hall.
  specialize (Hall p Hp). congruence.
Qed.

End TopologyFacts.

(** * Construction and finalization together *)

Section ConstructionFacts.

Variable tensor : Type.
Variable tensor_bfyx : Z -> Z -> Z -> Z -> tensor.
Variable tensor_default : tensor.
Variable padding : Type.
Variable padding_default : padding.
Variable data_types : Type.

Local Abbreviation primitive := (cldnn.primitive padding data_types).
Local Abbreviation pooling := (cldnn.pooling tensor padding data_types).
Local Abbreviation pooling_ctor := (cldnn.pooling_ctor tensor padding data_types).
Local Abbreviation construct :=
  (cldnn.construct tensor_bfyx tensor_default padding_default data_types).

Lemma pooling_valid_false (p : pooling) :
  cldnn.mode p = cldnn.max_with_argmax -> cldnn.argmax p = "" ->
  cldnn.pooling_valid p = false.
Proof. intros Hmode Harg. unfold cldnn.pooling_valid. by rewrite Hmode, Harg. Qed.

(** C2: every constructor call yields a pooling record holding the mode and
    argmax it was given, without any check; in particular the argmax mode
    without an argmax id is constructed as such, it can be inserted into a
    topology like any other primitive, and it is [finalize] that rejects
    every topology holding it with [InvalidConfiguration]. *)
Theorem construction_never_fails :
  (forall c : pooling_ctor, exists p : pooling,
     construct c = p /\
     cldnn.mode p = cldnn.ctor_mode c /\
     cldnn.argmax p = default "" (cldnn.ctor_argmax_arg c)) /\
  (forall id input size stride input_offset ext_prim_id output_padding,
     let p := construct (cldnn.ctor_window id input cldnn.max_with_argmax size stride
                           input_offset ext_prim_id output_padding) in
     cldnn.mode p = cldnn.max_with_argmax /\ cldnn.argmax p = "") /\
  (forall (c : pooling_ctor) (t : list (primitive + pooling)),
     cldnn.mode (construct c) = cldnn.max_with_argmax ->
     cldnn.argmax (construct c) = "" ->
     (prim_id (construct c) ∉ ids t ->
        insert (inr (construct c)) t = Ok (t ++ [inr (construct c)])) /\
     (inr (construct c) ∈ t -> finalize t = Err InvalidConfiguration)).
Proof.
  split_and!.
  - intros c. exists (construct c). by destruct c.
  - done.
  - intros c t Hmode Harg. split.
    + intros Hfresh. by apply (insert_fresh (inr (construct c))).
    + intros Hin. apply (finalize_invalid t (inr (construct c)) Hin).
      by apply pooling_valid_false.
Qed.

End ConstructionFacts.

(** * The ngraph alias *)

(** C10: [ngraph::Function] is [ov::Function] itself: the two names denote
    the same type, and every operation on [ov::Function] is, as it stands, an
    operation on [ngraph::Function] with the same results. *)
Theorem ngraph_Function_is_ov_Function :
  ngraph.Function = ov.Function /\
  (forall (Topology : Type) (f : ngraph.Function Topology),
     exists g : ov.Function Topology, g = f) /\
  (forall (Topology B : Type) (op : ov.Function Topology -> B),
     exists op' : ngraph.Function Topology -> B,
       forall (f : ngraph.Function Topology) (g : ov.Function Topology),
         f = g -> op' f = op g).
Proof.
  split_and!.
  - reflexivity.
  - intros Topology f. by exists f.
  - intros Topology B op. exists op. by intros f g ->.
Qed.

(** * Concrete runs *)

Lemma sample_forward_inserted :
  insert_all sample.topology_forward = Ok sample.topology_forward.
Proof. reflexivity. Qed.

Lemma sample_forward_valid : valid_configuration sample.topology_forward.
Proof. repeat constructor. Qed.

Lemma sample_forward_no_dangling : no_dangling sample.topology_forward.
Proof. by apply resolved_no_dangling. Qed.

Lemma sample_forward_acyclic : acyclic sample.topology_forward.
Proof.
  apply (kahn_acyclic _ [inl (sample.source "in"); inl (sample.source "idx");
                         inr (sample.construct sample.call_argmax)]).
  - by apply (bool_decide_unpack _).
  - reflexivity.
Qed.

Lemma sample_no_argmax_acyclic : acyclic sample.topology_no_argmax.
Proof.
  apply (kahn_acyclic _ sample.topology_no_argmax).
  - by apply (bool_decide_unpack _).
  - reflexivity.
Qed.

Lemma extra_dependencies_argmax_witness :
  cldnn.extra_dependencies (sample.construct sample.call_argmax) = {[ "idx" ]} /\
  cldnn.get_dependencies (sample.construct sample.call_argmax) = ["idx"].
Proof.
  apply (extra_dependencies_argmax _ _ _ (sample.construct sample.call_argmax)).
  discriminate.
Defined.

Lemma construction_never_fails_witness :
  finalize sample.topology_no_argmax = Err InvalidConfiguration.
Proof.
  destruct (construction_never_fails _ sample.bfyx sample.tensor_default _
              sample.padding_default sample.data_types) as (_ & _ & Hreject).
  destruct (Hreject sample.call_no_argmax sample.topology_no_argmax eq_refl eq_refl)
    as [_ Hfinalize].
  apply Hfinalize. right. left.
Defined.

Lemma finalize_topological_order_witness :
  insert_all sample.topology_forward = Ok sample.topology_forward /\
  valid_configuration sample.topology_forward /\
  exists g, finalize sample.topology_forward = Ok g /\
            order g ≡ₚ ids sample.topology_forward /\
            forall u v, edge sample.topology_forward u v -> order_lt g u v.
Proof.
  split; [exact sample_forward_inserted|]. split; [exact sample_forward_valid|].
  destruct (finalize_topological_order sample.topology_forward sample.topology_forward
              sample_forward_inserted sample_forward_valid) as [Hok _].
  destruct (Hok sample_forward_no_dangling sample_forward_acyclic)
    as (g & Hg & _ & Hperm & Hord).
  by exists g.
Defined.

(** The order computed for the forward-referencing sample: both sources come
    out before the pooling that was inserted first. *)
Example sample_forward_order :
  finalize sample.topology_forward
  = Ok {| primitives := sample.topology_forward; order := ["in"; "idx"; "pool"] |}.
Proof. reflexivity. Qed.

(** The cycle of section 8 is reported as such. *)
Example sample_cycle_detected :
  finalize sample.topology_cycle = Err CycleDetected.
Proof. reflexivity. Qed.

(** A reference to an id that was never inserted is reported as such. *)
Example sample_unknown_reference :
  finalize sample.topology_dangling = Err UnknownReference.
Proof. reflexivity. Qed.

(** A second primitive under a used id is refused. *)
Example sample_duplicate_id :
  insert (inl (sample.source "in")) sample.topology_forward = Err DuplicateId.
Proof. reflexivity. Qed.

(** C5, counterexample: the overload taking both an argmax id and an output
    size records no output element type, while the output-size overload
    called with the same window and [f32] records [f32]. *)
Lemma argmax_output_size_no_data_type :
  cldnn.output_data_type (cldnn.base (sample.construct sample.call_argmax_output_size))
    = None /\
  cldnn.output_data_type (cldnn.base (sample.construct sample.call_output_size))
    = Some sample.f32 /\
  cldnn.output_data_type (cldnn.base (sample.construct sample.call_argmax_output_size))
    <> cldnn.output_data_type (cldnn.base (sample.construct sample.call_output_size)).
Proof. split_and!; [reflexivity | reflexivity | discriminate]. Qed.

(** C6, counterexample: [pooling("", "in", pooling_mode::average)] is a
    primitive whose id is the empty string. *)
Lemma empty_id_constructed :
  cldnn.id (cldnn.base (sample.construct sample.call_empty_id)) = "" /\
  ~ (forall c : sample.pooling_ctor,
       cldnn.id (cldnn.base (sample.construct c)) <> "").
Proof.
  split; [reflexivity|]. intros Hall. by apply (Hall sample.call_empty_id).
Qed.

(** C7, counterexample: a source and a pooling in argmax mode without an
    argmax id, inserted in this order: the ids are distinct, every referenced
    id is present and the graph is acyclic, yet [finalize] fails, and with
    neither [UnknownReference] nor [CycleDetected]. *)
Lemma finalize_rejects_resolved_acyclic :
  insert_all sample.topology_no_argmax = Ok sample.topology_no_argmax /\
  no_dangling sample.topology_no_argmax /\
  acyclic sample.topology_no_argmax /\
  finalize sample.topology_no_argmax = Err InvalidConfiguration.
Proof.
  split_and!.
  - reflexivity.
  - by apply resolved_no_dangling.
  - exact sample_no_argmax_acyclic.
  - reflexivity.
Qed.


(** * Further properties of the pooling constructors and their dependencies *)

Section PoolingInvariants.

Variable tensor : Type.
Variable tensor_bfyx : Z -> Z -> Z -> Z -> tensor.
Variable tensor_default : tensor.
Variable padding : Type.
Variable padding_default : padding.
Variable data_types : Type.

Local Abbreviation pooling := (cldnn.pooling tensor padding data_types).
Local Abbreviation pooling_ctor := (cldnn.pooling_ctor tensor padding data_types).
Local Abbreviation construct :=
  (cldnn.construct tensor_bfyx tensor_default padding_default data_types).

Implicit Types (p q : pooling) (c : pooling_ctor).

(** X1: what [get_dependencies] returns right after construction.  The three
    overloads without an [argmax] parameter give no dependency, whatever the
    mode (also for [max_with_argmax]); the two overloads with an [argmax]
    parameter give [[argmax]], or nothing when the id passed is empty. *)
Theorem constructed_dependencies c :
  cldnn.get_dependencies (construct c) =
    match cldnn.ctor_argmax_arg c with
    | Some a => if std.empty a then [] else [a]
    | None => []
    end.
Proof. by destruct c. Qed.

(** X2: the shape of the dependency vector of any pooling record: at most one
    entry, never the empty id, never a duplicate, and nothing but [argmax]. *)
Theorem get_dependencies_shape p :
  (length (cldnn.get_dependencies p) <= 1) /\
  ("" ∉ cldnn.get_dependencies p) /\
  NoDup (cldnn.get_dependencies p) /\
  cldnn.get_dependencies p ⊆ [cldnn.argmax p].
Proof.
  unfold cldnn.get_dependencies.
  destruct (std.empty (cldnn.argmax p)) eqn:Hempty; simpl.
  - split_and!; [lia | apply not_elem_of_nil | constructor | apply list_subseteq_nil].
  - apply empty_false in Hempty. split_and!; [lia | | | done].
    + intros Hin%list_elem_of_singleton. congruence.
    + apply NoDup_singleton.
Qed.

(** X3: [get_dependencies] reads [argmax] and nothing else: two pooling
    records with the same [argmax] have the same dependencies, whatever their
    mode, flags, tensors and base fields are. *)
Theorem get_dependencies_only_argmax p q :
  cldnn.argmax p = cldnn.argmax q ->
  cldnn.get_dependencies p = cldnn.get_dependencies q.
Proof. intros Heq. unfold cldnn.get_dependencies. by rewrite Heq. Qed.

(** X4: the argmax overload agrees with the plain window overload exactly
    when the argmax id passed is the empty string. *)
Theorem argmax_overload_is_window_iff_empty
    id input argmax mode size stride input_offset ext_prim_id output_padding :
  construct (cldnn.ctor_argmax id input argmax mode size stride input_offset
               ext_prim_id output_padding)
  = construct (cldnn.ctor_window id input mode size stride input_offset
                 ext_prim_id output_padding)
  <-> argmax = "".
Proof.
  split.
  - intros Heq. by apply (f_equal cldnn.argmax) in Heq.
  - by intros ->.
Qed.

(** X5: no overload yields a primitive with both [global_pooling] and
    [with_output_size] set. *)
Theorem global_pooling_excludes_output_size c :
  cldnn.global_pooling (construct c) && cldnn.with_output_size (construct c) = false.
Proof. by destruct c. Qed.

(** X6: a primitive constructed with [global_pooling] set has an empty
    [argmax], no dependency and no explicit output element type. *)
Theorem global_pooling_no_dependency c :
  cldnn.global_pooling (construct c) = true ->
  cldnn.argmax (construct c) = "" /\
  cldnn.get_dependencies (construct c) = [] /\
  cldnn.output_data_type (cldnn.base (construct c)) = None.
Proof. by destruct c. Qed.

(** X7: a constructed primitive that carries an explicit output element type
    has [with_output_size] set, is not a global pooling, and has an empty
    [argmax], hence no dependency. *)
Theorem output_data_type_implies_output_size c (t : data_types) :
  cldnn.output_data_type (cldnn.base (construct c)) = Some t ->
  cldnn.with_output_size (construct c) = true /\
  cldnn.global_pooling (construct c) = false /\
  cldnn.argmax (construct c) = "" /\
  cldnn.get_dependencies (construct c) = [].
Proof. by destruct c. Qed.

(** X8: when a constructed primitive has [with_output_size] unset, its
    [output_size] is the default tensor: no overload stores an output size
    without raising the flag. *)
Theorem output_size_default_without_flag c :
  cldnn.with_output_size (construct c) = false ->
  cldnn.output_size (construct c) = tensor_default.
Proof. by destruct c. Qed.

(** X9: the mode-only overload builds what the window overload builds from
    size [(0,0,0,0)], stride [(1,1,1,1)] and an omitted input offset, except
    for [global_pooling], which only the mode-only overload sets. *)
Theorem global_overload_is_window_with_defaults
    id input mode ext_prim_id output_padding :
  let g := construct (cldnn.ctor_global id input mode ext_prim_id output_padding) in
  let w := construct (cldnn.ctor_window id input mode (tensor_bfyx 0 0 0 0)
                        (tensor_bfyx 1 1 1 1) None ext_prim_id output_padding) in
  cldnn.base g = cldnn.base w /\
  cldnn.argmax g = cldnn.argmax w /\
  cldnn.mode g = cldnn.mode w /\
  cldnn.input_offset g = cldnn.input_offset w /\
  cldnn.stride g = cldnn.stride w /\
  cldnn.size g = cldnn.size w /\
  cldnn.with_output_size g = cldnn.with_output_size w /\
  cldnn.output_size g = cldnn.output_size w /\
  cldnn.pad_end g = cldnn.pad_end w /\
  cldnn.global_pooling g = true /\
  cldnn.global_pooling w = false.
Proof. by split_and!. Qed.

(** X10: no overload drops or merges its identifying arguments: two calls,
    of the same overload or not, that build equal primitives were given the
    same id, input and mode and the same argmax id (none counting as the
    empty string), and either both or neither are the mode-only overload and
    took an output size. *)
Theorem construct_reads_back c c' :
  construct c = construct c' ->
  cldnn.ctor_id c = cldnn.ctor_id c' /\
  cldnn.ctor_input c = cldnn.ctor_input c' /\
  cldnn.ctor_mode c = cldnn.ctor_mode c' /\
  default "" (cldnn.ctor_argmax_arg c) = default "" (cldnn.ctor_argmax_arg c') /\
  cldnn.is_ctor_global c = cldnn.is_ctor_global c' /\
  bool_decide (is_Some (cldnn.ctor_output_size_arg c))
    = bool_decide (is_Some (cldnn.ctor_output_size_arg c')).
Proof.
  intros Heq.
  assert (cldnn.id (cldnn.base (construct c)) = cldnn.id (cldnn.base (construct c')))
    as Hid by (by rewrite Heq).
  assert (cldnn.input (cldnn.base (construct c))
          = cldnn.input (cldnn.base (construct c'))) as Hinput by (by rewrite Heq).
  assert (cldnn.mode (construct c) = cldnn.mode (construct c'))
    as Hmode by (by rewrite Heq).
  assert (cldnn.argmax (construct c) = cldnn.argmax (construct c'))
    as Hargmax by (by rewrite Heq).
  assert (cldnn.global_pooling (construct c) = cldnn.global_pooling (construct c'))
    as Hglobal by (by rewrite Heq).
  assert (cldnn.with_output_size (construct c)
          = cldnn.with_output_size (construct c')) as Hflag by (by rewrite Heq).
  clear Heq.
  destruct c, c'; simpl in *; try discriminate;
    injection Hinput as ->; by subst.
Qed.

End PoolingInvariants.

Lemma get_dependencies_only_argmax_witness :
  cldnn.get_dependencies (sample.construct sample.call_argmax)
  = cldnn.get_dependencies (sample.construct sample.call_argmax_output_size).
Proof.
  apply (get_dependencies_only_argmax _ _ _
           (sample.construct sample.call_argmax)
           (sample.construct sample.call_argmax_output_size)).
  reflexivity.
Defined.

Lemma global_pooling_no_dependency_witness :
  cldnn.argmax (sample.construct sample.call_empty_id) = "" /\
  cldnn.get_dependencies (sample.construct sample.call_empty_id) = [] /\
  cldnn.output_data_type (cldnn.base (sample.construct sample.call_empty_id)) = None.
Proof.
  apply (global_pooling_no_dependency _ sample.bfyx sample.tensor_default _
           sample.padding_default sample.data_types sample.call_empty_id).
  reflexivity.
Defined.

Lemma output_data_type_implies_output_size_witness :
  cldnn.with_output_size (sample.construct sample.call_output_size) = true /\
  cldnn.global_pooling (sample.construct sample.call_output_size) = false /\
  cldnn.argmax (sample.construct sample.call_output_size) = "" /\
  cldnn.get_dependencies (sample.construct sample.call_output_size) = [].
Proof.
  apply (output_data_type_implies_output_size _ sample.bfyx sample.tensor_default _
           sample.padding_default sample.data_types sample.call_output_size sample.f32).
  reflexivity.
Defined.

Lemma output_size_default_without_flag_witness :
  cldnn.output_size (sample.construct sample.call_argmax) = sample.tensor_default.
Proof.
  apply (output_size_default_without_flag _ sample.bfyx sample.tensor_default _
           sample.padding_default sample.data_types sample.call_argmax).
  reflexivity.
Defined.

Lemma construct_reads_back_witness :
  let c : sample.pooling_ctor :=
    cldnn.ctor_window "pool" "in" cldnn.max
      (sample.bfyx 1 1 2 2) (sample.bfyx 1 1 2 2) None None None in
  let c' : sample.pooling_ctor :=
    cldnn.ctor_argmax "pool" "in" "" cldnn.max
      (sample.bfyx 1 1 2 2) (sample.bfyx 1 1 2 2)
      (Some (sample.bfyx 0 0 0 0)) (Some "") None in
  sample.construct c = sample.construct c' /\
  cldnn.ctor_id c = cldnn.ctor_id c' /\
  cldnn.ctor_input c = cldnn.ctor_input c' /\
  cldnn.ctor_mode c = cldnn.ctor_mode c' /\
  default "" (cldnn.ctor_argmax_arg c) = default "" (cldnn.ctor_argmax_arg c') /\
  cldnn.is_ctor_global c = cldnn.is_ctor_global c' /\
  bool_decide (is_Some (cldnn.ctor_output_size_arg c))
    = bool_decide (is_Some (cldnn.ctor_output_size_arg c')).
Proof.
  intros c c'. split; [reflexivity|].
  apply (construct_reads_back _ sample.bfyx sample.tensor_default _
           sample.padding_default sample.data_types c c').
  reflexivity.
Defined.
